(** * ALU emulator: the flag-computing arithmetic engine

    A shallow embedding of [cpu.hpp] and [alu.hpp].

    Every C++ integer value is an unbounded integer of Rocq.  Operands
    narrower than [int] are promoted to [int] before each arithmetic or
    bitwise operator, and no intermediate value of the program comes near
    the bounds of [int] (the largest is 65535 + 256), so each expression is
    computed exactly and reduced modulo [2 ^ width] when it is stored in an
    unsigned variable or returned at an unsigned type.

    The status register, which [calculate] receives by reference, is
    threaded through explicitly: [calculate] returns the result byte
    together with the register's new contents.

    The terminal is a record of the lines still to be read from [std::cin]
    and of the text written so far to [std::cout] and [std::cerr]; the input
    loops of [cpu.hpp] take a bound on their number of iterations. *)

From Stdlib Require Import ZArith Bool Lia List String Ascii.
Import ListNotations.

Local Open Scope Z_scope.
Local Open Scope bool_scope.

(** ** Integer types *)

(** The carrier of every integer value. *)
Abbreviation integer := Z.

(** The unsigned types the bit helpers of [cpu.hpp] are instantiated at:
    the template parameter [T] of [set], [clr] and [read]. *)
Inductive unsigned_type : Set :=
| uint8_t
| uint16_t.

Definition width (T : unsigned_type) : Z :=
  match T with
  | uint8_t => 8
  | uint16_t => 16
  end.

(** Conversion to the unsigned type [T]: the value modulo [2 ^ width T]. *)
Definition static_cast (T : unsigned_type) (x : Z) : Z := x mod 2 ^ width T.

(** A value the type [T] can hold. *)
Definition in_range (T : unsigned_type) (x : Z) : Prop := 0 <= x < 2 ^ width T.

(** A byte: a value of type [std::uint8_t]. *)
Abbreviation byte x := (in_range uint8_t x).

(** [static_cast<bool>]: nonzero is true. *)
Definition to_bool (x : Z) : bool := negb (x =? 0).

(** ** The terminal *)

(** The end-of-line character. *)
Definition nl : string := String (ascii_of_nat 10) EmptyString.

(** The tabulation character. *)
Definition tab : string := String (ascii_of_nat 9) EmptyString.

Record terminal : Set := {
  cin : list string;
  cout : string;
  cerr : string
}.

(** [std::cout << text]. *)
Definition write_cout (text : string) (t : terminal) : terminal :=
  {| cin := cin t; cout := cout t ++ text; cerr := cerr t |}.

(** [std::cerr << text]. *)
Definition write_cerr (text : string) (t : terminal) : terminal :=
  {| cin := cin t; cout := cout t; cerr := cerr t ++ text |}.

(** [std::getline(std::cin, s)] into a fresh string [s]: the next line, or
    the string left empty once the input has ended. *)
Definition getline (t : terminal) : string * terminal :=
  match cin t with
  | [] => (EmptyString, t)
  | s :: rest => (s, {| cin := rest; cout := cout t; cerr := cerr t |})
  end.

(** The text [text] written [n] times over. *)
Fixpoint repeated (n : nat) (text : string) : string :=
  match n with
  | O => EmptyString
  | Datatypes.S n => text ++ repeated n text
  end.

(** What [std::stoi] makes of a string: the number it parses, or one of the
    two exceptions it throws. *)
Inductive stoi_result : Set :=
| stoi_value (v : Z)
| invalid_argument
| out_of_range.

(** How a call of an input loop ends: it returns, an exception leaves it
    uncaught, or the bound on its iterations is reached first. *)
Inductive outcome (A : Type) : Type :=
| returned (a : A) (t : terminal)
| uncaught (t : terminal)
| out_of_fuel.

Arguments returned {A} a t.
Arguments uncaught {A} t.
Arguments out_of_fuel {A}.

(** ** cpu.hpp *)

Module cpu.

(** Arithmetic and logic operations. *)
Definition NOP : integer := 0.
Definition OR  : integer := 1.
Definition AND : integer := 2.
Definition XOR : integer := 3.
Definition ADD : integer := 4.
Definition SUB : integer := 5.

(** The operation codes that [get_op_code] returns for a name it knows,
    and that [calculate] has a [case] for. *)
Definition recognised (op_code : integer) : Prop :=
  op_code = OR \/ op_code = AND \/ op_code = XOR \/ op_code = ADD \/ op_code = SUB.

(** Status flags: positions in the status register. *)
Definition S : integer := 4.
Definition N : integer := 3.
Definition Z : integer := 2.
Definition V : integer := 1.
Definition C : integer := 0.

(** [reg |= (1 << bit)]; returns the register's new contents. *)
Definition set (T : unsigned_type) (reg bit : integer) : integer :=
  static_cast T (Z.lor reg (Z.shiftl 1 bit)).

(** [reg &= ~(1 << bit)]. *)
Definition clr (T : unsigned_type) (reg bit : integer) : integer :=
  static_cast T (Z.land reg (Z.lnot (Z.shiftl 1 bit))).

(** [return reg & (1 << bit)], converted to the return type [T]. *)
Definition read (T : unsigned_type) (reg bit : integer) : integer :=
  static_cast T (Z.land reg (Z.shiftl 1 bit)).

(** [get_signed(num, sr)]: the overload that consults the status flags. *)
Definition get_signed (num sr : integer) : integer :=
  if to_bool (read uint8_t sr S) then num - 256 else num.

(** [get_signed(num)]: the overload that consults bit 7 of the number. *)
Definition get_signed_1 (num : integer) : integer :=
  if to_bool (read uint8_t num 7) then num - 256 else num.

(** [get_operator(op_code)]. *)
Definition get_operator (op_code : integer) : string :=
  if op_code =? OR then " | "
  else if op_code =? AND then " & "
  else if op_code =? XOR then " ^ "
  else if op_code =? ADD then " + "
  else if op_code =? SUB then " - "
  else "Unknown".

(** [get_instruction_name(op_code)]. *)
Definition get_instruction_name (op_code : integer) : string :=
  if op_code =? OR then "OR"
  else if op_code =? AND then "AND"
  else if op_code =? XOR then "XOR"
  else if op_code =? ADD then "ADD"
  else if op_code =? SUB then "SUB"
  else "Unknown".

(** [get_op_code(instruction_name)]. *)
Definition get_op_code (instruction_name : string) : integer :=
  if (instruction_name =? "OR")%string then OR
  else if (instruction_name =? "AND")%string then AND
  else if (instruction_name =? "XOR")%string then XOR
  else if (instruction_name =? "ADD")%string then ADD
  else if (instruction_name =? "SUB")%string then SUB
  else NOP.

(** [readline(s)], for a fresh string [s]: returns the line read. *)
Definition readline (t : terminal) : string * terminal :=
  let (s, t) := getline t in
  (s, write_cout nl t).

(** [read_byte()].  [std::stoi] is not part of the program and is taken as
    a parameter.  Only [std::invalid_argument] is caught; the result of
    [std::stoi] is converted to [std::uint8_t] as it is. *)
Fixpoint read_byte (stoi : string -> stoi_result) (fuel : nat) (t : terminal)
  : outcome integer :=
  match fuel with
  | O => out_of_fuel
  | Datatypes.S fuel =>
      let (s, t) := readline t in
      match stoi s with
      | stoi_value v => returned (static_cast uint8_t v) t
      | invalid_argument =>
          read_byte stoi fuel (write_cerr ("Invalid input, try again!" ++ nl ++ nl) t)
      | out_of_range => uncaught t
      end
  end.

(** [read_op_code()]. *)
Fixpoint read_op_code (fuel : nat) (t : terminal) : outcome integer :=
  match fuel with
  | O => out_of_fuel
  | Datatypes.S fuel =>
      let (s, t) := readline t in
      let op_code := get_op_code s in
      if op_code =? NOP
      then read_op_code fuel (write_cout ("Invalid instruction, try again!" ++ nl ++ nl) t)
      else returned op_code t
  end.

End cpu.

(** ** alu.hpp *)

Module alu.

Import cpu.

(** [calculate(operation, a, b, sr)].  The [switch] over the operation code
    is the chain of comparisons; a code that matches no [case] leaves
    [result] and [sr] as they are. *)
Definition calculate (operation a b sr : integer) : integer * integer :=
  let result := static_cast uint16_t 0 in
  let sr :=
    static_cast uint8_t
      (Z.land sr
         (Z.lnot (Z.lor (Z.lor (Z.lor (Z.lor (Z.shiftl 1 S) (Z.shiftl 1 N))
                                  (Z.shiftl 1 Z)) (Z.shiftl 1 V)) (Z.shiftl 1 C)))) in
  let '(result, sr) :=
    if operation =? OR then (static_cast uint16_t (Z.lor a b), sr)
    else if operation =? AND then (static_cast uint16_t (Z.land a b), sr)
    else if operation =? XOR then (static_cast uint16_t (Z.lxor a b), sr)
    else if operation =? ADD then
      let result := static_cast uint16_t (a + b) in
      let sr :=
        if (read uint8_t a 7 =? read uint8_t b 7)
           && negb (read uint8_t a 7 =? read uint16_t result 7)
        then set uint8_t sr V else sr in
      (result, sr)
    else if operation =? SUB then
      let result := static_cast uint16_t (a - b) in
      let result := if a <? b then static_cast uint16_t (result + 256) else result in
      let sr :=
        if negb (read uint8_t a 7 =? read uint8_t b 7)
           && (read uint8_t b 7 =? read uint16_t result 7)
        then set uint8_t sr V else sr in
      (result, sr)
    else (result, sr) in
  let sr := if to_bool (read uint16_t result 8) then set uint8_t sr C else sr in
  let sr := if result =? 0 then set uint8_t sr Z else sr in
  let sr := if to_bool (read uint16_t result 7) then set uint8_t sr N else sr in
  let sr :=
    if negb (Bool.eqb (to_bool (read uint8_t sr N)) (to_bool (read uint8_t sr V)))
    then set uint8_t sr S else sr in
  (static_cast uint8_t result, sr).

(** Two views of [calculate], used to state what it computes.  Both are
    read off the [switch] statement. *)

(** The contents of the 16-bit local [result] when the [switch] is left. *)
Definition accumulator (operation a b : integer) : integer :=
  if operation =? OR then static_cast uint16_t (Z.lor a b)
  else if operation =? AND then static_cast uint16_t (Z.land a b)
  else if operation =? XOR then static_cast uint16_t (Z.lxor a b)
  else if operation =? ADD then static_cast uint16_t (a + b)
  else if operation =? SUB then
    let result := static_cast uint16_t (a - b) in
    if a <? b then static_cast uint16_t (result + 256) else result
  else static_cast uint16_t 0.

(** Whether the [switch] executed [set(sr, V)]. *)
Definition overflow (operation a b : integer) : bool :=
  if operation =? ADD then
    (read uint8_t a 7 =? read uint8_t b 7)
    && negb (read uint8_t a 7 =? read uint16_t (accumulator ADD a b) 7)
  else if operation =? SUB then
    negb (read uint8_t a 7 =? read uint8_t b 7)
    && (read uint8_t b 7 =? read uint16_t (accumulator SUB a b) 7)
  else false.

(** [print] and [calculate_by_input].  The stream insertion of an [int]
    and of a [std::bitset<n>], and [std::stoi], are not part of the
    program and are taken as parameters.  [print] is modelled at its
    default stream, [std::cout], which is the one every call uses. *)

Section Streams.

Variable show_int : integer -> string.
Variable show_bits : nat -> integer -> string.
Variable stoi : string -> stoi_result.

(** [print(operation, a, b)]. *)
Definition print (operation a b : integer) (t : terminal) : terminal :=
  let sr := static_cast uint8_t 0 in
  let '(result, sr) := calculate operation a b sr in
  let t := write_cout (repeated 80 "-" ++ nl) t in
  let t := write_cout ("Instruction: " ++ get_instruction_name operation ++ nl) t in
  let t :=
    write_cout ("Decimal" ++ tab ++ "   : " ++ show_int (get_signed_1 a)
                ++ get_operator operation ++ show_int (get_signed_1 b)
                ++ " = " ++ show_int (get_signed result sr) ++ nl) t in
  let t :=
    write_cout ("Binary" ++ tab ++ "   : " ++ show_bits 8 a
                ++ get_operator operation ++ show_bits 8 b
                ++ " = " ++ show_bits 8 result ++ nl) t in
  let t := write_cout ("Status bits: SNZVC = " ++ show_bits 5 sr ++ nl) t in
  write_cout (repeated 80 "-" ++ nl ++ nl) t.

(** [calculate_by_input()].  The bound [fuel] is the one of each of its
    three input loops. *)
Definition calculate_by_input (fuel : nat) (t : terminal) : outcome unit :=
  let t :=
    write_cout ("Enter an operation to perform (OR, AND, XOR, ADD och SUB):" ++ nl) t in
  match read_op_code fuel t with
  | returned op_code t =>
      let t := write_cout ("Enter the first operand (0 - 255):" ++ nl) t in
      match read_byte stoi fuel t with
      | returned op1 t =>
          let t := write_cout ("Enter the second operand (0 - 255):" ++ nl) t in
          match read_byte stoi fuel t with
          | returned op2 t => returned tt (print op_code op1 op2 t)
          | uncaught t => uncaught t
          | out_of_fuel => out_of_fuel
          end
      | uncaught t => uncaught t
      | out_of_fuel => out_of_fuel
      end
  | uncaught t => uncaught t
  | out_of_fuel => out_of_fuel
  end.

End Streams.

End alu.

Import cpu alu.

(** * Properties *)

(** Bounds of numerals and of flag positions. *)
Ltac range := cbv [in_range width C V Z N S] in *; lia.

(** Recognises a numeral, possibly behind the name of an operation code or
    of a flag. *)
Ltac is_positive p :=
  lazymatch p with
  | xH => idtac
  | xO ?q => is_positive q
  | xI ?q => is_positive q
  end.

Ltac is_numeral z :=
  let z' := eval cbv delta [NOP OR AND XOR ADD SUB S N Z V C] in z in
  lazymatch z' with
  | Z0 => idtac
  | Zpos ?p => is_positive p
  | Zneg ?p => is_positive p
  end.

(** Replaces every comparison between numerals by its value. *)
Ltac eval_cmp :=
  cbn [width];
  repeat match goal with
    | |- context [?x =? ?y] =>
        is_numeral x; is_numeral y;
        let v := eval vm_compute in (x =? y) in change (x =? y) with v
    | |- context [?x <? ?y] =>
        is_numeral x; is_numeral y;
        let v := eval vm_compute in (x <? y) in change (x <? y) with v
    end;
  cbn [andb orb negb xorb Bool.eqb].

(** ** The calls of [main]

    [print] starts each calculation from [sr = 0x00]; the arguments [-100]
    and [-5] reach [calculate] as the bytes 156 and 251.  Each pair is the
    returned byte and the status register, whose low five bits read
    [SNZVC]. *)

Example main_ADD_100_50 : calculate ADD 100 50 0 = (150, 10).
Proof. reflexivity. Qed.

Example main_SUB_156_50 : calculate SUB 156 50 0 = (106, 18).
Proof. reflexivity. Qed.

Example main_AND_36_32 : calculate AND 36 32 0 = (32, 0).
Proof. reflexivity. Qed.

Example main_OR_32_1 : calculate OR 32 1 0 = (33, 0).
Proof. reflexivity. Qed.

Example main_ADD_251_10 : calculate ADD 251 10 0 = (5, 1).
Proof. reflexivity. Qed.

(** ** Bits of converted values and of the bit helpers *)

Section Bits.

Variable T : unsigned_type.

Lemma width_pos : 0 < width T.
Proof. destruct T; reflexivity. Qed.

Lemma static_cast_range x : in_range T (static_cast T x).
Proof.
  unfold in_range, static_cast.
  apply Z.mod_pos_bound, Z.pow_pos_nonneg; [lia | destruct T; discriminate].
Qed.

Lemma static_cast_id x : in_range T x -> static_cast T x = x.
Proof. intros H. apply Z.mod_small, H. Qed.

Lemma testbit_static_cast x j :
  Z.testbit (static_cast T x) j = (j <? width T) && Z.testbit x j.
Proof. apply Z.testbit_mod_pow2. pose proof width_pos. lia. Qed.

Lemma testbit_set reg bit j :
  0 <= bit ->
  Z.testbit (set T reg bit) j = (j <? width T) && (Z.testbit reg j || (bit =? j)).
Proof.
  intros Hbit. unfold set.
  now rewrite testbit_static_cast, Z.lor_spec, Z.shiftl_1_l, Z.pow2_bits_eqb.
Qed.

Lemma testbit_clr reg bit j :
  0 <= bit -> 0 <= j ->
  Z.testbit (clr T reg bit) j = (j <? width T) && (Z.testbit reg j && negb (bit =? j)).
Proof.
  intros Hbit Hj. unfold clr.
  now rewrite testbit_static_cast, Z.land_spec, Z.lnot_spec, Z.shiftl_1_l,
    Z.pow2_bits_eqb.
Qed.

(** [read] isolates one bit: it yields the bit's weight or zero. *)
Lemma read_value reg bit :
  0 <= bit < width T ->
  read T reg bit = if Z.testbit reg bit then 2 ^ bit else 0.
Proof.
  intros Hbit. unfold read. apply Z.bits_inj'. intros j Hj.
  rewrite testbit_static_cast, Z.land_spec, Z.shiftl_1_l, Z.pow2_bits_eqb by lia.
  destruct (Z.eqb_spec bit j) as [-> | Hne].
  - destruct (Z.testbit reg j); rewrite ?Z.pow2_bits_eqb, ?Z.eqb_refl, ?Z.bits_0 by lia;
      destruct (j <? width T) eqn:E; try reflexivity; lia.
  - rewrite andb_false_r, andb_false_r.
    destruct (Z.testbit reg bit); rewrite ?Z.pow2_bits_eqb, ?Z.bits_0 by lia;
      [symmetry; now apply Z.eqb_neq | reflexivity].
Qed.

Lemma read_to_bool reg bit :
  0 <= bit < width T -> to_bool (read T reg bit) = Z.testbit reg bit.
Proof.
  intros Hbit. rewrite read_value by assumption. unfold to_bool.
  destruct (Z.testbit reg bit); [| reflexivity].
  assert (0 < 2 ^ bit) by (apply Z.pow_pos_nonneg; lia).
  destruct (Z.eqb_spec (2 ^ bit) 0); [lia | reflexivity].
Qed.

End Bits.

(** Two reads of the same position compare as the bits do, whatever the
    types the reads are made at. *)
Lemma read_eqb T1 T2 x y bit :
  0 <= bit < width T1 -> 0 <= bit < width T2 ->
  (read T1 x bit =? read T2 y bit) = Bool.eqb (Z.testbit x bit) (Z.testbit y bit).
Proof.
  intros H1 H2. rewrite !read_value by assumption.
  assert (0 < 2 ^ bit) by (apply Z.pow_pos_nonneg; lia).
  destruct (Z.testbit x bit), (Z.testbit y bit); cbn [Bool.eqb];
    [apply Z.eqb_refl | apply Z.eqb_neq; lia | apply Z.eqb_neq; lia | reflexivity].
Qed.

(** ** The shape of [calculate] *)

(** The returned byte is the accumulator, truncated. *)
Lemma calculate_result operation a b sr :
  fst (calculate operation a b sr) = static_cast uint8_t (accumulator operation a b).
Proof.
  unfold calculate, accumulator.
  destruct (operation =? OR); [reflexivity |].
  destruct (operation =? AND); [reflexivity |].
  destruct (operation =? XOR); [reflexivity |].
  destruct (operation =? ADD); [reflexivity |].
  destruct (operation =? SUB); reflexivity.
Qed.

(** The register [calculate] starts from: the five flags cleared. *)
Lemma testbit_cleared sr j :
  0 <= j ->
  Z.testbit
    (static_cast uint8_t
       (Z.land sr
          (Z.lnot (Z.lor (Z.lor (Z.lor (Z.lor (Z.shiftl 1 S) (Z.shiftl 1 N))
                                   (Z.shiftl 1 Z)) (Z.shiftl 1 V)) (Z.shiftl 1 C))))) j
  = (4 <? j) && (j <? 8) && Z.testbit sr j.
Proof.
  intros Hj.
  change (Z.lor (Z.lor (Z.lor (Z.lor (Z.shiftl 1 S) (Z.shiftl 1 N))
                          (Z.shiftl 1 Z)) (Z.shiftl 1 V)) (Z.shiftl 1 C))
    with (Z.ones 5).
  rewrite testbit_static_cast, Z.land_spec, Z.lnot_spec, Z.testbit_ones_nonneg by lia.
  cbn [width].
  destruct (Z.ltb_spec 4 j), (Z.ltb_spec j 5), (Z.ltb_spec j 8),
    (Z.testbit sr j); try reflexivity; lia.
Qed.

(** [calculate] leaves the [switch] with the accumulator in [result] and
    with [V] set in the cleared register exactly when [overflow] says so. *)
Lemma calculate_switch operation a b sr :
  calculate operation a b sr =
    let result := accumulator operation a b in
    let sr := static_cast uint8_t (Z.land sr (Z.lnot (Z.ones 5))) in
    let sr := if overflow operation a b then set uint8_t sr V else sr in
    let sr := if to_bool (read uint16_t result 8) then set uint8_t sr C else sr in
    let sr := if result =? 0 then set uint8_t sr Z else sr in
    let sr := if to_bool (read uint16_t result 7) then set uint8_t sr N else sr in
    let sr :=
      if negb (Bool.eqb (to_bool (read uint8_t sr N)) (to_bool (read uint8_t sr V)))
      then set uint8_t sr S else sr in
    (static_cast uint8_t result, sr).
Proof.
  unfold calculate, accumulator, overflow.
  destruct (Z.eqb_spec operation OR) as [-> | _]; [reflexivity |].
  destruct (Z.eqb_spec operation AND) as [-> | _]; [reflexivity |].
  destruct (Z.eqb_spec operation XOR) as [-> | _]; [reflexivity |].
  destruct (Z.eqb_spec operation ADD) as [-> | _]; [reflexivity |].
  destruct (Z.eqb_spec operation SUB) as [-> | _]; reflexivity.
Qed.

(** Every bit of the status register after [calculate]. *)
Lemma calculate_status operation a b sr j :
  0 <= j ->
  Z.testbit (snd (calculate operation a b sr)) j =
    if j =? C then Z.testbit (accumulator operation a b) 8
    else if j =? V then overflow operation a b
    else if j =? Z then accumulator operation a b =? 0
    else if j =? N then Z.testbit (accumulator operation a b) 7
    else if j =? S then
      xorb (Z.testbit (accumulator operation a b) 7) (overflow operation a b)
    else (j <? 8) && Z.testbit sr j.
Proof.
  intros Hj. rewrite calculate_switch. cbv zeta. cbn [snd].
  rewrite !(read_to_bool uint16_t) by range.
  generalize (accumulator operation a b) (overflow operation a b).
  intros acc v.
  set (sr0 := static_cast uint8_t (Z.land sr (Z.lnot (Z.ones 5)))).
  assert (H0 : forall i, 0 <= i ->
            Z.testbit sr0 i = (4 <? i) && (i <? 8) && Z.testbit sr i)
    by (intros i Hi; apply (testbit_cleared sr i Hi)).
  clearbody sr0.
  rewrite !(read_to_bool uint8_t) by range.
  destruct v, (Z.testbit acc 8), (acc =? 0), (Z.testbit acc 7);
    rewrite ?testbit_set, ?H0 by range; eval_cmp;
    rewrite ?testbit_set, ?H0 by range; cbn [width];
    (destruct (Z.eqb_spec j C) as [-> | HC]; [eval_cmp; reflexivity |]);
    (destruct (Z.eqb_spec j V) as [-> | HV]; [eval_cmp; reflexivity |]);
    (destruct (Z.eqb_spec j Z) as [-> | HZ]; [eval_cmp; reflexivity |]);
    (destruct (Z.eqb_spec j N) as [-> | HN]; [eval_cmp; reflexivity |]);
    (destruct (Z.eqb_spec j S) as [-> | HS]; [eval_cmp; reflexivity |]);
    apply Z.eqb_neq in HC, HV, HZ, HN, HS;
    rewrite ?(Z.eqb_sym _ j), ?HC, ?HV, ?HZ, ?HN, ?HS;
    unfold C, V, Z, N, S in *;
    destruct (Z.ltb_spec 4 j), (Z.ltb_spec j 8), (Z.testbit sr j);
    try reflexivity; lia.
Qed.

(** Rewrites the outputs of [calculate] into the accumulator and the
    overflow condition. *)
Ltac calc :=
  repeat match goal with
    | |- context [fst (calculate ?o ?a ?b ?s)] =>
        rewrite (calculate_result o a b s)
    | |- context [Z.testbit (snd (calculate ?o ?a ?b ?s)) ?j] =>
        rewrite (calculate_status o a b s j) by (cbv; discriminate)
    end;
  eval_cmp.

(** ** Bytes and the accumulator *)

(** A byte has no bit at position 8 or above. *)
Lemma byte_testbit_high x j : byte x -> 8 <= j -> Z.testbit x j = false.
Proof.
  intros Hx Hj. rewrite <- (static_cast_id uint8_t x Hx), testbit_static_cast.
  cbn [width]. destruct (Z.ltb_spec j 8); [lia | reflexivity].
Qed.

(** Conversely, a number with no bit at position 8 or above is a byte. *)
Lemma byte_of_bits x : (forall j, 8 <= j -> Z.testbit x j = false) -> byte x.
Proof.
  intros H. replace x with (static_cast uint8_t x); [apply static_cast_range |].
  apply Z.bits_inj'. intros j Hj. rewrite testbit_static_cast. cbn [width].
  destruct (Z.ltb_spec j 8); [reflexivity | symmetry; apply H; assumption].
Qed.

Lemma byte_lor a b : byte a -> byte b -> byte (Z.lor a b).
Proof.
  intros Ha Hb. apply byte_of_bits. intros j Hj.
  now rewrite Z.lor_spec, (byte_testbit_high a), (byte_testbit_high b).
Qed.

Lemma byte_land a b : byte a -> byte b -> byte (Z.land a b).
Proof.
  intros Ha Hb. apply byte_of_bits. intros j Hj.
  now rewrite Z.land_spec, (byte_testbit_high a), (byte_testbit_high b).
Qed.

Lemma byte_lxor a b : byte a -> byte b -> byte (Z.lxor a b).
Proof.
  intros Ha Hb. apply byte_of_bits. intros j Hj.
  now rewrite Z.lxor_spec, (byte_testbit_high a), (byte_testbit_high b).
Qed.

(** A byte fits the 16-bit accumulator unchanged. *)
Lemma byte_widen x : byte x -> static_cast uint16_t x = x.
Proof. intros Hx. apply static_cast_id. range. Qed.

Lemma accumulator_OR a b : byte a -> byte b -> accumulator OR a b = Z.lor a b.
Proof. intros Ha Hb. apply byte_widen, byte_lor; assumption. Qed.

Lemma accumulator_AND a b : byte a -> byte b -> accumulator AND a b = Z.land a b.
Proof. intros Ha Hb. apply byte_widen, byte_land; assumption. Qed.

Lemma accumulator_XOR a b : byte a -> byte b -> accumulator XOR a b = Z.lxor a b.
Proof. intros Ha Hb. apply byte_widen, byte_lxor; assumption. Qed.

(** The sum of two bytes needs nine bits and is held exactly. *)
Lemma accumulator_ADD a b : byte a -> byte b -> accumulator ADD a b = a + b.
Proof. intros Ha Hb. apply static_cast_id. range. Qed.

(** The difference wraps to [65536 + a - b] when [a < b]; adding 256 wraps
    once more, and what is left is [a - b + 256], below 256. *)
Lemma accumulator_SUB a b :
  byte a -> byte b -> accumulator SUB a b = if a <? b then a - b + 256 else a - b.
Proof.
  intros Ha Hb. cbv [accumulator]. cbn [Z.eqb SUB OR AND XOR ADD Pos.eqb].
  cbv [static_cast width in_range] in *. change (2 ^ 16) with 65536.
  change (2 ^ 8) with 256 in *.
  destruct (Z.ltb_spec a b).
  - rewrite <- (Z.mod_unique (a - b) 65536 (-1) (a - b + 65536)) by lia.
    symmetry. apply (Z.mod_unique _ 65536 1). all: lia.
  - apply Z.mod_small. lia.
Qed.

Lemma accumulator_SUB_byte a b : byte a -> byte b -> byte (accumulator SUB a b).
Proof.
  intros Ha Hb. rewrite accumulator_SUB by assumption.
  destruct (Z.ltb_spec a b); range.
Qed.

Lemma accumulator_SUB_mod a b :
  byte a -> byte b -> accumulator SUB a b = (a - b) mod 256.
Proof.
  intros Ha Hb. rewrite accumulator_SUB by assumption.
  cbv [in_range width] in *. change (2 ^ 8) with 256 in *.
  destruct (Z.ltb_spec a b).
  - apply (Z.mod_unique _ 256 (-1)); lia.
  - symmetry. apply Z.mod_small. lia.
Qed.

(** Bit 8 of a nine-bit number tells whether it reaches 256. *)
Lemma testbit_8 x : 0 <= x < 512 -> Z.testbit x 8 = (256 <=? x).
Proof.
  intros Hx. destruct (Z.leb_spec 256 x).
  - apply Z.testbit_true; [lia |]. change (2 ^ 8) with 256.
    replace x with (x - 256 + 1 * 256) by lia.
    rewrite Z.div_add, Z.div_small by lia. reflexivity.
  - apply Z.testbit_false; [lia |]. change (2 ^ 8) with 256.
    rewrite Z.div_small by lia. reflexivity.
Qed.

(** ** The operations *)

(** C4.  For all bytes [a] and [b], [calculate(ADD, a, b, sr)] returns
    [(a + b) mod 256], and afterwards the Carry flag (bit 0 of [sr]) is set
    if and only if [a + b >= 256]. *)
Theorem ADD_result_carry a b sr :
  byte a -> byte b ->
  fst (calculate ADD a b sr) = (a + b) mod 256
  /\ (Z.testbit (snd (calculate ADD a b sr)) C = true <-> a + b >= 256).
Proof.
  intros Ha Hb. split.
  - calc. rewrite accumulator_ADD by assumption. reflexivity.
  - calc. rewrite accumulator_ADD, testbit_8 by range.
    destruct (Z.leb_spec 256 (a + b)); split; intros; try discriminate;
      try reflexivity; lia.
Qed.

Lemma ADD_result_carry_witness :
  byte 200 /\ byte 100
  /\ fst (calculate ADD 200 100 0) = (200 + 100) mod 256
  /\ (Z.testbit (snd (calculate ADD 200 100 0)) C = true <-> 200 + 100 >= 256).
Proof.
  assert (Ha : byte 200) by range. assert (Hb : byte 100) by range.
  split; [exact Ha | split; [exact Hb |]].
  exact (ADD_result_carry 200 100 0 Ha Hb).
Defined.

(** C1, as the code has it.  For all bytes [a] and [b],
    [calculate(SUB, a, b, sr)] returns [(a - b) mod 256]; the Carry flag
    (bit 0 of [sr]) is clear afterwards, whether or not [a < b]: the
    accumulator is brought back below 256 before bit 8 is read. *)
Theorem SUB_result_carry_clear a b sr :
  byte a -> byte b ->
  fst (calculate SUB a b sr) = (a - b) mod 256
  /\ Z.testbit (snd (calculate SUB a b sr)) C = false.
Proof.
  intros Ha Hb. split.
  - rewrite calculate_result, static_cast_id
      by (apply accumulator_SUB_byte; assumption).
    apply accumulator_SUB_mod; assumption.
  - calc. apply byte_testbit_high; [apply accumulator_SUB_byte; assumption | lia].
Qed.

Lemma SUB_result_carry_clear_witness :
  byte 0 /\ byte 1
  /\ fst (calculate SUB 0 1 0) = (0 - 1) mod 256
  /\ Z.testbit (snd (calculate SUB 0 1 0)) C = false.
Proof.
  assert (Ha : byte 0) by range. assert (Hb : byte 1) by range.
  split; [exact Ha | split; [exact Hb |]].
  exact (SUB_result_carry_clear 0 1 0 Ha Hb).
Defined.

(** C1, as stated, fails: [calculate(SUB, 0, 1, sr)] returns 255 with the
    Carry flag clear although [0 < 1]. *)
Lemma SUB_carry_on_borrow_counterexample :
  ~ (fst (calculate SUB 0 1 0) = (0 - 1) mod 256
     /\ (Z.testbit (snd (calculate SUB 0 1 0)) C = true <-> 0 < 1)).
Proof.
  intros [_ [_ H]]. specialize (H eq_refl). vm_compute in H. discriminate H.
Qed.

(** C6.  For all bytes [a] and [b], [calculate] returns the bitwise OR, AND
    and XOR of [a] and [b] for the operations OR, AND and XOR; after each of
    the three the Overflow and Carry flags are clear and the Signed flag
    equals the Negative flag. *)
Theorem bitwise_operations a b sr :
  byte a -> byte b ->
  (fst (calculate OR a b sr) = Z.lor a b
   /\ fst (calculate AND a b sr) = Z.land a b
   /\ fst (calculate XOR a b sr) = Z.lxor a b)
  /\ forall operation,
      operation = OR \/ operation = AND \/ operation = XOR ->
      Z.testbit (snd (calculate operation a b sr)) V = false
      /\ Z.testbit (snd (calculate operation a b sr)) C = false
      /\ Z.testbit (snd (calculate operation a b sr)) S
         = Z.testbit (snd (calculate operation a b sr)) N.
Proof.
  intros Ha Hb. split.
  - calc.
    rewrite accumulator_OR, accumulator_AND, accumulator_XOR by assumption.
    repeat split; apply static_cast_id;
      [apply byte_lor | apply byte_land | apply byte_lxor]; assumption.
  - intros operation Hop.
    assert (Hacc : byte (accumulator operation a b)).
    { destruct Hop as [-> | [-> | ->]];
        [rewrite accumulator_OR | rewrite accumulator_AND | rewrite accumulator_XOR];
        auto using byte_lor, byte_land, byte_lxor. }
    assert (Hv : overflow operation a b = false)
      by (destruct Hop as [-> | [-> | ->]]; reflexivity).
    calc. rewrite Hv, xorb_false_r. repeat split.
    apply byte_testbit_high; [assumption | lia].
Qed.

Lemma bitwise_operations_witness :
  byte 36 /\ byte 32
  /\ fst (calculate AND 36 32 0) = Z.land 36 32
  /\ Z.testbit (snd (calculate AND 36 32 0)) V = false.
Proof.
  assert (Ha : byte 36) by range. assert (Hb : byte 32) by range.
  split; [exact Ha | split; [exact Hb |]].
  pose proof (bitwise_operations 36 32 0 Ha Hb) as [[_ [Hand _]] Hflags].
  split; [exact Hand |].
  exact (proj1 (Hflags AND (or_intror (or_introl eq_refl)))).
Defined.

(** Bit 7 of the returned byte is bit 7 of the accumulator. *)
Lemma result_sign operation a b sr :
  Z.testbit (fst (calculate operation a b sr)) 7
  = Z.testbit (accumulator operation a b) 7.
Proof. rewrite calculate_result, testbit_static_cast. reflexivity. Qed.

Lemma eqb_eq_iff (x y : bool) : Bool.eqb x y = true <-> x = y.
Proof. destruct x, y; cbn; intuition congruence. Qed.

Lemma eqb_neq_iff (x y : bool) : negb (Bool.eqb x y) = true <-> x <> y.
Proof. destruct x, y; cbn; intuition congruence. Qed.

(** C5.  For all bytes [a] and [b], the Overflow flag (bit 1 of [sr]) is set
    after ADD exactly when [a] and [b] have equal bit 7 and the returned
    byte has a different bit 7; after SUB exactly when [a] and [b] have
    different bit 7 and the returned byte has the bit 7 of [b]; and never
    after OR, AND or XOR. *)
Theorem overflow_flag_rule a b sr :
  byte a -> byte b ->
  (Z.testbit (snd (calculate ADD a b sr)) V = true <->
     Z.testbit a 7 = Z.testbit b 7
     /\ Z.testbit (fst (calculate ADD a b sr)) 7 <> Z.testbit a 7)
  /\ (Z.testbit (snd (calculate SUB a b sr)) V = true <->
        Z.testbit a 7 <> Z.testbit b 7
        /\ Z.testbit (fst (calculate SUB a b sr)) 7 = Z.testbit b 7)
  /\ Z.testbit (snd (calculate OR a b sr)) V = false
  /\ Z.testbit (snd (calculate AND a b sr)) V = false
  /\ Z.testbit (snd (calculate XOR a b sr)) V = false.
Proof.
  intros _ _. rewrite !result_sign. calc. unfold overflow. eval_cmp. rewrite !read_eqb by range.
  split; [| split; [| repeat split]].
  - rewrite andb_true_iff, eqb_eq_iff, eqb_neq_iff. intuition congruence.
  - rewrite andb_true_iff, eqb_eq_iff, eqb_neq_iff. intuition congruence.
Qed.

Lemma overflow_flag_rule_witness :
  byte 156 /\ byte 50
  /\ (Z.testbit (snd (calculate SUB 156 50 0)) V = true <->
        Z.testbit 156 7 <> Z.testbit 50 7
        /\ Z.testbit (fst (calculate SUB 156 50 0)) 7 = Z.testbit 50 7).
Proof.
  assert (Ha : byte 156) by range. assert (Hb : byte 50) by range.
  split; [exact Ha | split; [exact Hb |]].
  exact (proj1 (proj2 (overflow_flag_rule 156 50 0 Ha Hb))).
Defined.

(** C7.  For every operation and all bytes [a] and [b], the Signed flag
    (bit 4 of [sr]) after [calculate] is the exclusive or of the Negative
    flag (bit 3) and the Overflow flag (bit 1). *)
Theorem signed_flag_rule operation a b sr :
  byte a -> byte b ->
  Z.testbit (snd (calculate operation a b sr)) S
  = xorb (Z.testbit (snd (calculate operation a b sr)) N)
         (Z.testbit (snd (calculate operation a b sr)) V).
Proof.
  intros _ _. calc. reflexivity.
Qed.

Lemma signed_flag_rule_witness :
  byte 156 /\ byte 50
  /\ Z.testbit (snd (calculate SUB 156 50 0)) S
     = xorb (Z.testbit (snd (calculate SUB 156 50 0)) N)
            (Z.testbit (snd (calculate SUB 156 50 0)) V).
Proof.
  assert (Ha : byte 156) by range. assert (Hb : byte 50) by range.
  split; [exact Ha | split; [exact Hb |]].
  exact (signed_flag_rule SUB 156 50 0 Ha Hb).
Defined.

(** ** The Zero flag *)

(** The Zero flag reports on the whole 16-bit accumulator, not on the
    returned byte. *)
Lemma zero_flag_accumulator operation a b sr :
  Z.testbit (snd (calculate operation a b sr)) Z = (accumulator operation a b =? 0).
Proof. calc. reflexivity. Qed.

(** Where the accumulator stays below 256, that is the returned byte: after
    OR, AND, XOR, SUB and an unrecognised operation code the Zero flag is
    set if and only if the returned byte is zero. *)
Lemma zero_flag_result operation a b sr :
  byte a -> byte b -> operation <> ADD ->
  Z.testbit (snd (calculate operation a b sr)) Z = true
  <-> fst (calculate operation a b sr) = 0.
Proof.
  intros Ha Hb Hop.
  assert (Hacc : byte (accumulator operation a b)).
  { destruct (Z.eq_dec operation OR) as [-> | H1];
      [rewrite accumulator_OR by assumption; now apply byte_lor |].
    destruct (Z.eq_dec operation AND) as [-> | H2];
      [rewrite accumulator_AND by assumption; now apply byte_land |].
    destruct (Z.eq_dec operation XOR) as [-> | H3];
      [rewrite accumulator_XOR by assumption; now apply byte_lxor |].
    destruct (Z.eq_dec operation SUB) as [-> | H5];
      [now apply accumulator_SUB_byte |].
    unfold accumulator.
    apply Z.eqb_neq in H1, H2, H3, Hop, H5. rewrite H1, H2, H3, Hop, H5.
    change (static_cast uint16_t 0) with 0. range. }
  rewrite zero_flag_accumulator, calculate_result, static_cast_id by assumption.
  apply Z.eqb_eq.
Qed.

(** After ADD the flag is set only for [0 + 0]: a sum that wraps to the
    byte 0 leaves 256 in the accumulator. *)
Lemma zero_flag_ADD a b sr :
  byte a -> byte b ->
  Z.testbit (snd (calculate ADD a b sr)) Z = true <-> a + b = 0.
Proof.
  intros Ha Hb. rewrite zero_flag_accumulator, accumulator_ADD by assumption.
  apply Z.eqb_eq.
Qed.

(** Every sum of exactly 256 returns the byte 0 and leaves the flag clear. *)
Lemma zero_flag_wrapped_sum a b sr :
  byte a -> byte b -> a + b = 256 ->
  fst (calculate ADD a b sr) = 0
  /\ Z.testbit (snd (calculate ADD a b sr)) Z = false.
Proof.
  intros Ha Hb Hsum.
  rewrite zero_flag_accumulator, calculate_result, accumulator_ADD by assumption.
  rewrite Hsum. split; reflexivity.
Qed.

(** C2 at the input ADD, 255, 1: [calculate] returns the byte 0 (with Carry
    set) and leaves the Zero flag clear. *)
Theorem ADD_255_1_zero_flag_clear :
  fst (calculate ADD 255 1 0) = 0
  /\ Z.testbit (snd (calculate ADD 255 1 0)) C = true
  /\ Z.testbit (snd (calculate ADD 255 1 0)) Z = false.
Proof. vm_compute. repeat split. Qed.

(** ** The first example of [main] *)

(** C3, as the code has it.  [calculate(ADD, 100, 50, sr)] returns 150 with
    Carry=0, Overflow=1, Negative=1, Zero=0 and Signed=0; since Signed is
    clear, [get_signed(result, sr)] is the result unchanged, 150. *)
Theorem ADD_100_50_example sr :
  fst (calculate ADD 100 50 sr) = 150
  /\ Z.testbit (snd (calculate ADD 100 50 sr)) C = false
  /\ Z.testbit (snd (calculate ADD 100 50 sr)) V = true
  /\ Z.testbit (snd (calculate ADD 100 50 sr)) N = true
  /\ Z.testbit (snd (calculate ADD 100 50 sr)) Z = false
  /\ Z.testbit (snd (calculate ADD 100 50 sr)) S = false
  /\ get_signed (fst (calculate ADD 100 50 sr)) (snd (calculate ADD 100 50 sr)) = 150.
Proof.
  unfold get_signed. rewrite read_to_bool by range. calc.
  change (accumulator ADD 100 50) with 150.
  change (overflow ADD 100 50) with true.
  repeat split.
Qed.

(** C3, as stated, fails: the signed rendering is not [150 - 256]. *)
Lemma ADD_100_50_signed_counterexample :
  ~ (fst (calculate ADD 100 50 0) = 150
     /\ Z.testbit (snd (calculate ADD 100 50 0)) C = false
     /\ Z.testbit (snd (calculate ADD 100 50 0)) V = true
     /\ Z.testbit (snd (calculate ADD 100 50 0)) N = true
     /\ Z.testbit (snd (calculate ADD 100 50 0)) Z = false
     /\ Z.testbit (snd (calculate ADD 100 50 0)) S = false
     /\ get_signed (fst (calculate ADD 100 50 0)) (snd (calculate ADD 100 50 0))
        = 150 - 256).
Proof.
  intros (_ & _ & _ & _ & _ & _ & H). vm_compute in H. discriminate H.
Qed.

(** The value [150 - 256] is what the other overload, which looks at bit 7
    of the number alone, makes of the same byte. *)
Lemma get_signed_1_ADD_100_50 sr :
  get_signed_1 (fst (calculate ADD 100 50 sr)) = -106.
Proof. calc. reflexivity. Qed.

(** ** Unrecognised operation codes *)

(** C8.  For every operation code other than OR, AND, XOR, ADD and SUB and
    all bytes [a] and [b], [calculate] returns 0 with the Zero flag set and
    the Signed, Negative, Overflow and Carry flags clear. *)
Theorem unrecognised_operation operation a b sr :
  byte operation -> byte a -> byte b ->
  operation <> OR -> operation <> AND -> operation <> XOR ->
  operation <> ADD -> operation <> SUB ->
  fst (calculate operation a b sr) = 0
  /\ Z.testbit (snd (calculate operation a b sr)) Z = true
  /\ Z.testbit (snd (calculate operation a b sr)) S = false
  /\ Z.testbit (snd (calculate operation a b sr)) N = false
  /\ Z.testbit (snd (calculate operation a b sr)) V = false
  /\ Z.testbit (snd (calculate operation a b sr)) C = false.
Proof.
  intros _ _ _ H1 H2 H3 H4 H5.
  assert (Hacc : accumulator operation a b = 0).
  { unfold accumulator. apply Z.eqb_neq in H1, H2, H3, H4, H5.
    rewrite H1, H2, H3, H4, H5. reflexivity. }
  assert (Hv : overflow operation a b = false).
  { unfold overflow. apply Z.eqb_neq in H4, H5. rewrite H4, H5. reflexivity. }
  calc. rewrite Hacc, Hv. repeat split.
Qed.

Lemma unrecognised_operation_witness :
  fst (calculate NOP 3 4 255) = 0
  /\ Z.testbit (snd (calculate NOP 3 4 255)) Z = true
  /\ Z.testbit (snd (calculate NOP 3 4 255)) S = false
  /\ Z.testbit (snd (calculate NOP 3 4 255)) N = false
  /\ Z.testbit (snd (calculate NOP 3 4 255)) V = false
  /\ Z.testbit (snd (calculate NOP 3 4 255)) C = false.
Proof.
  apply (unrecognised_operation NOP 3 4 255); now cbv.
Defined.

(** ** The status register before and after *)

(** C9.  For every operation and all bytes [a] and [b], the returned byte
    and the bits 0 to 4 of the status register (C, V, Z, N, S) after
    [calculate] are the same for any two initial status registers; and two
    calls with identical inputs yield identical outputs. *)
Theorem initial_status_irrelevant operation a b sr1 sr2 :
  byte a -> byte b ->
  fst (calculate operation a b sr1) = fst (calculate operation a b sr2)
  /\ (forall j, 0 <= j <= 4 ->
        Z.testbit (snd (calculate operation a b sr1)) j
        = Z.testbit (snd (calculate operation a b sr2)) j)
  /\ (sr1 = sr2 -> calculate operation a b sr1 = calculate operation a b sr2).
Proof.
  intros _ _. split; [| split].
  - rewrite !calculate_result. reflexivity.
  - intros j Hj. rewrite !calculate_status by lia.
    destruct (Z.eqb_spec j C), (Z.eqb_spec j V), (Z.eqb_spec j Z),
      (Z.eqb_spec j N), (Z.eqb_spec j S); try reflexivity.
    unfold C, V, Z, N, S in *. lia.
  - intros ->. reflexivity.
Qed.

Lemma initial_status_irrelevant_witness :
  byte 255 /\ byte 1
  /\ fst (calculate ADD 255 1 0) = fst (calculate ADD 255 1 255)
  /\ Z.testbit (snd (calculate ADD 255 1 0)) C
     = Z.testbit (snd (calculate ADD 255 1 255)) C.
Proof.
  assert (Ha : byte 255) by range. assert (Hb : byte 1) by range.
  split; [exact Ha | split; [exact Hb |]].
  pose proof (initial_status_irrelevant ADD 255 1 0 255 Ha Hb) as [Hres [Hbits _]].
  split; [exact Hres | apply Hbits; now cbv].
Defined.

(** C10.  For every operation code, recognised or not, and all bytes [a]
    and [b], the bits 5 to 7 of the status register are after [calculate]
    what they were before: only bits 0 to 4 are written. *)
Theorem status_frame operation a b sr :
  byte a -> byte b ->
  forall j, 5 <= j <= 7 ->
    Z.testbit (snd (calculate operation a b sr)) j = Z.testbit sr j.
Proof.
  intros _ _ j Hj. rewrite calculate_status by lia.
  destruct (Z.eqb_spec j C), (Z.eqb_spec j V), (Z.eqb_spec j Z),
    (Z.eqb_spec j N), (Z.eqb_spec j S); unfold C, V, Z, N, S in *; try lia.
  destruct (Z.ltb_spec j 8); [reflexivity | lia].
Qed.

Lemma status_frame_witness :
  byte 255 /\ byte 1
  /\ Z.testbit (snd (calculate ADD 255 1 160)) 6 = Z.testbit 160 6
  /\ Z.testbit (snd (calculate ADD 255 1 160)) 7 = Z.testbit 160 7.
Proof.
  assert (Ha : byte 255) by range. assert (Hb : byte 1) by range.
  split; [exact Ha | split; [exact Hb |]].
  split; apply (status_frame ADD 255 1 160 Ha Hb); now cbv.
Defined.

(** The register stays a byte: nothing is written at bit 8 or above. *)
Lemma calculate_status_byte operation a b sr :
  byte (snd (calculate operation a b sr)).
Proof.
  apply byte_of_bits. intros j Hj. rewrite calculate_status by lia.
  destruct (Z.eqb_spec j C), (Z.eqb_spec j V), (Z.eqb_spec j Z),
    (Z.eqb_spec j N), (Z.eqb_spec j S); unfold C, V, Z, N, S in *; lia.
Qed.

(** * The rest of [cpu.hpp] *)

(** ** The bit helpers *)

(** A value of type [T] has no bit at position [width T] or above. *)
Lemma in_range_testbit_high T x j :
  in_range T x -> width T <= j -> Z.testbit x j = false.
Proof.
  intros Hx Hj. rewrite <- (static_cast_id T x Hx), testbit_static_cast.
  destruct (Z.ltb_spec j (width T)); [lia | reflexivity].
Qed.

(** X1.  [set] sets the bit it is given and no other: within the width of
    the register the bit then reads as set, every other bit is what it was,
    and the register still holds a value of its type. *)
Theorem set_only_that_bit T reg bit :
  in_range T reg -> 0 <= bit < width T ->
  to_bool (read T (set T reg bit) bit) = true
  /\ (forall j, j <> bit -> Z.testbit (set T reg bit) j = Z.testbit reg j)
  /\ in_range T (set T reg bit).
Proof.
  intros Hreg Hbit. split; [| split].
  - rewrite read_to_bool, testbit_set by lia. rewrite Z.eqb_refl, orb_true_r.
    destruct (Z.ltb_spec bit (width T)); [reflexivity | lia].
  - intros j Hj. rewrite testbit_set by lia.
    destruct (Z.eqb_spec bit j); [congruence |]. rewrite orb_false_r.
    destruct (Z.ltb_spec j (width T)); [reflexivity |].
    symmetry. now apply (in_range_testbit_high T).
  - apply static_cast_range.
Qed.

Lemma set_only_that_bit_witness :
  to_bool (read uint8_t (set uint8_t 160 V) V) = true
  /\ Z.testbit (set uint8_t 160 V) 7 = Z.testbit 160 7.
Proof.
  assert (Hreg : in_range uint8_t 160) by range.
  assert (Hbit : 0 <= V < width uint8_t) by range.
  pose proof (set_only_that_bit uint8_t 160 V Hreg Hbit) as [Hset [Hother _]].
  split; [exact Hset | apply Hother; now cbv].
Defined.

(** X2.  [clr] clears the bit it is given and no other. *)
Theorem clr_only_that_bit T reg bit :
  in_range T reg -> 0 <= bit < width T ->
  to_bool (read T (clr T reg bit) bit) = false
  /\ (forall j, j <> bit -> Z.testbit (clr T reg bit) j = Z.testbit reg j)
  /\ in_range T (clr T reg bit).
Proof.
  intros Hreg Hbit. split; [| split].
  - rewrite read_to_bool, testbit_clr by lia.
    rewrite Z.eqb_refl. cbn [negb]. now rewrite !andb_false_r.
  - intros j Hj. destruct (Z.neg_nonneg_cases j) as [Hneg | Hpos].
    + now rewrite !Z.testbit_neg_r.
    + rewrite testbit_clr by lia.
      destruct (Z.eqb_spec bit j); [congruence |]. cbn [negb].
      rewrite andb_true_r.
      destruct (Z.ltb_spec j (width T)); [reflexivity |].
      symmetry. now apply (in_range_testbit_high T).
  - apply static_cast_range.
Qed.

Lemma clr_only_that_bit_witness :
  to_bool (read uint8_t (clr uint8_t 255 Z) Z) = false
  /\ Z.testbit (clr uint8_t 255 Z) 7 = Z.testbit 255 7.
Proof.
  assert (Hreg : in_range uint8_t 255) by range.
  assert (Hbit : 0 <= Z < width uint8_t) by range.
  pose proof (clr_only_that_bit uint8_t 255 Z Hreg Hbit) as [Hclr [Hother _]].
  split; [exact Hclr | apply Hother; now cbv].
Defined.

(** X3.  [read] within the width of the register returns the weight of the
    bit when the bit is high and zero when it is low; so it is nonzero
    exactly when the bit is high. *)
Theorem read_reports_bit T reg bit :
  0 <= bit < width T ->
  (read T reg bit = 0 \/ read T reg bit = 2 ^ bit)
  /\ (read T reg bit <> 0 <-> Z.testbit reg bit = true).
Proof.
  intros Hbit. rewrite read_value by assumption.
  assert (0 < 2 ^ bit) by (apply Z.pow_pos_nonneg; lia).
  destruct (Z.testbit reg bit); split; auto; split; intros; try lia; easy.
Qed.

Lemma read_reports_bit_witness :
  (read uint16_t 300 8 = 0 \/ read uint16_t 300 8 = 2 ^ 8)
  /\ (read uint16_t 300 8 <> 0 <-> Z.testbit 300 8 = true).
Proof. apply (read_reports_bit uint16_t 300 8). range. Defined.

(** X4.  Setting a bit that was low and clearing it again gives the
    register back, and so does clearing a bit that was high and setting it
    again. *)
Theorem set_clr_round_trip T reg bit :
  in_range T reg -> 0 <= bit < width T ->
  (Z.testbit reg bit = false -> clr T (set T reg bit) bit = reg)
  /\ (Z.testbit reg bit = true -> set T (clr T reg bit) bit = reg).
Proof.
  intros Hreg Hbit. split; intros Hlow; apply Z.bits_inj'; intros j Hj.
  - rewrite testbit_clr, testbit_set by lia.
    destruct (Z.eqb_spec bit j) as [-> | Hne]; cbn [negb].
    + now rewrite Hlow, !andb_false_r.
    + rewrite orb_false_r, andb_true_r.
      destruct (Z.ltb_spec j (width T)); [reflexivity |].
      symmetry. now apply (in_range_testbit_high T).
  - rewrite testbit_set, testbit_clr by lia.
    destruct (Z.eqb_spec bit j) as [-> | Hne]; cbn [negb].
    + rewrite Hlow, orb_true_r.
      destruct (Z.ltb_spec j (width T)); [reflexivity | lia].
    + rewrite orb_false_r, andb_true_r.
      destruct (Z.ltb_spec j (width T)); [reflexivity |].
      symmetry. now apply (in_range_testbit_high T).
Qed.

Lemma set_clr_round_trip_witness :
  clr uint8_t (set uint8_t 160 C) C = 160
  /\ set uint8_t (clr uint8_t 160 7) 7 = 160.
Proof.
  assert (Hreg : in_range uint8_t 160) by range.
  split.
  - apply (set_clr_round_trip uint8_t 160 C Hreg); [range | reflexivity].
  - apply (set_clr_round_trip uint8_t 160 7 Hreg); [range | reflexivity].
Defined.

(** X5.  A bit position at or beyond the width of the register (and below
    31, where the shift of the [int] 1 is defined) reaches nothing: [set]
    and [clr] leave the register as it is and [read] returns zero. *)
Theorem bit_beyond_width T reg bit :
  in_range T reg -> width T <= bit < 31 ->
  set T reg bit = reg /\ clr T reg bit = reg /\ read T reg bit = 0.
Proof.
  intros Hreg Hbit. pose proof (width_pos T) as Hw.
  repeat split; apply Z.bits_inj'; intros j Hj.
  - rewrite testbit_set by lia.
    destruct (Z.ltb_spec j (width T)).
    + destruct (Z.eqb_spec bit j); [lia | now rewrite orb_false_r].
    + symmetry. now apply (in_range_testbit_high T).
  - rewrite testbit_clr by lia.
    destruct (Z.ltb_spec j (width T)).
    + destruct (Z.eqb_spec bit j); [lia | now rewrite andb_true_r].
    + symmetry. now apply (in_range_testbit_high T).
  - unfold read.
    rewrite testbit_static_cast, Z.land_spec, Z.shiftl_1_l, Z.pow2_bits_eqb,
      Z.bits_0 by lia.
    destruct (Z.ltb_spec j (width T)); [| reflexivity].
    destruct (Z.eqb_spec bit j); [lia | now rewrite andb_false_r].
Qed.

Lemma bit_beyond_width_witness :
  set uint8_t 255 8 = 255 /\ clr uint8_t 255 8 = 255 /\ read uint8_t 255 8 = 0.
Proof. apply (bit_beyond_width uint8_t 255 8); range. Defined.

(** ** Signed readings *)

(** Bit 7 of a byte tells whether it reaches 128. *)
Lemma testbit_7_byte x : byte x -> Z.testbit x 7 = (128 <=? x).
Proof.
  intros Hx. cbv [in_range width] in Hx. change (2 ^ 8) with 256 in Hx.
  rewrite Z.testbit_odd, Z.shiftr_div_pow2 by lia. change (2 ^ 7) with 128.
  destruct (Z.leb_spec 128 x).
  - replace (x / 128) with 1 by (Z.to_euclidean_division_equations; lia).
    reflexivity.
  - rewrite Z.div_small by lia. reflexivity.
Qed.

(** Bit 7 of a nine-bit number. *)
Lemma testbit_7_sum x :
  0 <= x < 512 ->
  Z.testbit x 7 = ((128 <=? x) && (x <? 256)) || (384 <=? x).
Proof.
  intros Hx. rewrite Z.testbit_odd, Z.shiftr_div_pow2 by lia.
  change (2 ^ 7) with 128.
  assert (Hq : x / 128 = 0 \/ x / 128 = 1 \/ x / 128 = 2 \/ x / 128 = 3)
    by (Z.to_euclidean_division_equations; lia).
  destruct Hq as [E | [E | [E | E]]]; rewrite E; cbn [Z.odd];
    Z.to_euclidean_division_equations; lia.
Qed.

(** The one-argument overload on a byte, by comparison. *)
Lemma get_signed_1_value x :
  byte x -> get_signed_1 x = if 128 <=? x then x - 256 else x.
Proof.
  intros Hx. unfold get_signed_1.
  rewrite read_to_bool, testbit_7_byte by (assumption || range). reflexivity.
Qed.

(** The two-argument overload after [calculate], by the Signed flag. *)
Lemma get_signed_calculate operation a b sr :
  get_signed (fst (calculate operation a b sr)) (snd (calculate operation a b sr))
  = if xorb (Z.testbit (accumulator operation a b) 7) (overflow operation a b)
    then static_cast uint8_t (accumulator operation a b) - 256
    else static_cast uint8_t (accumulator operation a b).
Proof. unfold get_signed. rewrite read_to_bool by range. calc. reflexivity. Qed.

(** The overflow condition of the [switch], by the bits it compares. *)
Lemma overflow_ADD a b :
  overflow ADD a b
  = Bool.eqb (Z.testbit a 7) (Z.testbit b 7)
    && negb (Bool.eqb (Z.testbit a 7) (Z.testbit (accumulator ADD a b) 7)).
Proof. unfold overflow. eval_cmp. rewrite !read_eqb by range. reflexivity. Qed.

Lemma overflow_SUB a b :
  overflow SUB a b
  = negb (Bool.eqb (Z.testbit a 7) (Z.testbit b 7))
    && Bool.eqb (Z.testbit b 7) (Z.testbit (accumulator SUB a b) 7).
Proof. unfold overflow. eval_cmp. rewrite !read_eqb by range. reflexivity. Qed.

(** Splits every comparison of the goal, those that select a value first,
    and leaves linear arithmetic. *)
Ltac by_comparisons :=
  repeat match goal with
    | |- context [if ?x <? ?y then _ else _] => destruct (Z.ltb_spec x y)
    | |- context [if ?x <=? ?y then _ else _] => destruct (Z.leb_spec x y)
    | |- context [?x <=? ?y] => destruct (Z.leb_spec x y)
    | |- context [?x <? ?y] => destruct (Z.ltb_spec x y)
    end;
  cbn [andb orb negb xorb Bool.eqb]; try lia.

(** The flags and the byte that ADD leaves, by comparison. *)
Lemma ADD_by_comparison a b :
  byte a -> byte b ->
  Z.testbit (accumulator ADD a b) 7
  = ((128 <=? a + b) && (a + b <? 256)) || (384 <=? a + b)
  /\ static_cast uint8_t (accumulator ADD a b)
     = (if 256 <=? a + b then a + b - 256 else a + b)
  /\ Z.testbit a 7 = (128 <=? a) /\ Z.testbit b 7 = (128 <=? b).
Proof.
  intros Ha Hb. rewrite accumulator_ADD, testbit_7_sum by range.
  rewrite !testbit_7_byte by assumption. repeat split.
  cbv [in_range width static_cast] in *. change (2 ^ 8) with 256 in *.
  destruct (Z.leb_spec 256 (a + b)).
  - symmetry. apply (Z.mod_unique _ 256 1); lia.
  - apply Z.mod_small. lia.
Qed.

(** The flags and the byte that SUB leaves, by comparison. *)
Lemma SUB_by_comparison a b :
  byte a -> byte b ->
  accumulator SUB a b = (if a <? b then a - b + 256 else a - b)
  /\ static_cast uint8_t (accumulator SUB a b) = accumulator SUB a b
  /\ Z.testbit (accumulator SUB a b) 7 = (128 <=? accumulator SUB a b)
  /\ Z.testbit a 7 = (128 <=? a) /\ Z.testbit b 7 = (128 <=? b).
Proof.
  intros Ha Hb. pose proof (accumulator_SUB_byte a b Ha Hb) as Hacc.
  rewrite !testbit_7_byte by assumption.
  repeat split; [now apply accumulator_SUB | now apply static_cast_id].
Qed.

(** X6.  The one-argument [get_signed] reads a byte in two's complement:
    its value lies between -128 and 127 and converts back to the byte. *)
Theorem get_signed_1_twos_complement num :
  byte num ->
  -128 <= get_signed_1 num <= 127
  /\ static_cast uint8_t (get_signed_1 num) = num.
Proof.
  intros Hnum. rewrite get_signed_1_value by assumption.
  cbv [in_range width static_cast] in *. change (2 ^ 8) with 256 in *.
  destruct (Z.leb_spec 128 num); (split; [lia |]).
  - symmetry. apply (Z.mod_unique _ 256 (-1)); lia.
  - apply Z.mod_small. lia.
Qed.

Lemma get_signed_1_twos_complement_witness :
  -128 <= get_signed_1 156 <= 127
  /\ static_cast uint8_t (get_signed_1 156) = 156.
Proof. apply (get_signed_1_twos_complement 156). range. Defined.

(** X7.  An [int] between -128 and 127 that is passed as a byte, as [main]
    passes -100 and -5, is what the one-argument [get_signed] shows. *)
Theorem get_signed_1_of_int x :
  -128 <= x <= 127 -> get_signed_1 (static_cast uint8_t x) = x.
Proof.
  intros Hx. rewrite get_signed_1_value by apply static_cast_range.
  cbv [static_cast width]. change (2 ^ 8) with 256.
  destruct (Z.neg_nonneg_cases x) as [Hneg | Hpos].
  - rewrite <- (Z.mod_unique x 256 (-1) (x + 256)) by lia. by_comparisons.
  - rewrite Z.mod_small by lia. by_comparisons.
Qed.

Lemma get_signed_1_of_int_witness :
  get_signed_1 (static_cast uint8_t (-100)) = -100.
Proof. apply (get_signed_1_of_int (-100)). lia. Defined.

(** X8.  After ADD the signed rendering of the result is the sum of the
    operands read in two's complement, also when that sum does not fit a
    byte; the Signed flag is its sign. *)
Theorem ADD_signed_sum a b sr :
  byte a -> byte b ->
  get_signed (fst (calculate ADD a b sr)) (snd (calculate ADD a b sr))
  = get_signed_1 a + get_signed_1 b
  /\ (Z.testbit (snd (calculate ADD a b sr)) S = true
      <-> get_signed_1 a + get_signed_1 b < 0).
Proof.
  intros Ha Hb. rewrite get_signed_calculate. calc.
  rewrite overflow_ADD, !get_signed_1_value by assumption.
  destruct (ADD_by_comparison a b Ha Hb) as (-> & -> & -> & ->).
  cbv [in_range width] in *. change (2 ^ 8) with 256 in *.
  split; by_comparisons; split; intros; try discriminate; try reflexivity; lia.
Qed.

Lemma ADD_signed_sum_witness :
  get_signed (fst (calculate ADD 128 128 0)) (snd (calculate ADD 128 128 0))
  = get_signed_1 128 + get_signed_1 128
  /\ (Z.testbit (snd (calculate ADD 128 128 0)) S = true
      <-> get_signed_1 128 + get_signed_1 128 < 0).
Proof. apply (ADD_signed_sum 128 128 0); range. Defined.

(** X9.  After SUB the signed rendering of the result is the difference of
    the operands read in two's complement, also when that difference does
    not fit a byte; the Signed flag is its sign. *)
Theorem SUB_signed_difference a b sr :
  byte a -> byte b ->
  get_signed (fst (calculate SUB a b sr)) (snd (calculate SUB a b sr))
  = get_signed_1 a - get_signed_1 b
  /\ (Z.testbit (snd (calculate SUB a b sr)) S = true
      <-> get_signed_1 a - get_signed_1 b < 0).
Proof.
  intros Ha Hb. rewrite get_signed_calculate. calc.
  rewrite overflow_SUB, !get_signed_1_value by assumption.
  destruct (SUB_by_comparison a b Ha Hb) as (Hacc & -> & -> & -> & ->).
  rewrite Hacc.
  cbv [in_range width] in *. change (2 ^ 8) with 256 in *.
  split; by_comparisons; split; intros; try discriminate; try reflexivity; lia.
Qed.

Lemma SUB_signed_difference_witness :
  get_signed (fst (calculate SUB 156 50 0)) (snd (calculate SUB 156 50 0))
  = get_signed_1 156 - get_signed_1 50
  /\ (Z.testbit (snd (calculate SUB 156 50 0)) S = true
      <-> get_signed_1 156 - get_signed_1 50 < 0).
Proof. apply (SUB_signed_difference 156 50 0); range. Defined.

(** X10.  The Overflow flag after ADD and after SUB says that the sum, or
    the difference, of the operands read in two's complement does not lie
    between -128 and 127. *)
Theorem overflow_flag_meaning a b sr :
  byte a -> byte b ->
  (Z.testbit (snd (calculate ADD a b sr)) V = true
   <-> ~ -128 <= get_signed_1 a + get_signed_1 b <= 127)
  /\ (Z.testbit (snd (calculate SUB a b sr)) V = true
      <-> ~ -128 <= get_signed_1 a - get_signed_1 b <= 127).
Proof.
  intros Ha Hb. calc.
  rewrite overflow_ADD, overflow_SUB, !get_signed_1_value by assumption.
  destruct (ADD_by_comparison a b Ha Hb) as (-> & _ & -> & ->).
  destruct (SUB_by_comparison a b Ha Hb) as (Hacc & _ & -> & _).
  rewrite Hacc.
  cbv [in_range width] in *. change (2 ^ 8) with 256 in *.
  split; by_comparisons; split; intros; try discriminate; try reflexivity; lia.
Qed.

Lemma overflow_flag_meaning_witness :
  (Z.testbit (snd (calculate ADD 100 50 0)) V = true
   <-> ~ -128 <= get_signed_1 100 + get_signed_1 50 <= 127)
  /\ (Z.testbit (snd (calculate SUB 156 50 0)) V = true
      <-> ~ -128 <= get_signed_1 156 - get_signed_1 50 <= 127).
Proof.
  split.
  - apply (proj1 (overflow_flag_meaning 100 50 0 ltac:(range) ltac:(range))).
  - apply (proj2 (overflow_flag_meaning 156 50 0 ltac:(range) ltac:(range))).
Defined.

(** The one-argument [get_signed] extends bit 7 of a byte upwards. *)
Lemma get_signed_1_testbit x j :
  byte x -> 0 <= j ->
  Z.testbit (get_signed_1 x) j = if j <? 8 then Z.testbit x j else Z.testbit x 7.
Proof.
  intros Hx Hj. unfold get_signed_1. rewrite read_to_bool by range.
  destruct (Z.testbit x 7) eqn:E.
  - change (x - 256) with (x + Z.lnot (Z.ones 8)).
    rewrite Z.add_nocarry_lxor.
    + rewrite Z.lxor_spec, Z.lnot_spec, Z.testbit_ones_nonneg by lia.
      destruct (Z.ltb_spec j 8); cbn [negb].
      * apply xorb_false_r.
      * now rewrite (byte_testbit_high x j).
    + apply Z.bits_inj'. intros i Hi.
      rewrite Z.land_spec, Z.lnot_spec, Z.testbit_ones_nonneg, Z.bits_0 by lia.
      destruct (Z.ltb_spec i 8); cbn [negb].
      * apply andb_false_r.
      * now rewrite (byte_testbit_high x i).
  - destruct (Z.ltb_spec j 8); [reflexivity |]. now apply byte_testbit_high.
Qed.

(** After a bitwise operation the two overloads of [get_signed] agree on
    the result. *)
Lemma get_signed_bitwise operation a b sr :
  byte (accumulator operation a b) -> overflow operation a b = false ->
  get_signed (fst (calculate operation a b sr)) (snd (calculate operation a b sr))
  = get_signed_1 (accumulator operation a b).
Proof.
  intros Hacc Hv. rewrite get_signed_calculate, Hv, xorb_false_r.
  rewrite static_cast_id by assumption.
  unfold get_signed_1. rewrite read_to_bool by range. reflexivity.
Qed.

(** X11.  After OR, AND and XOR the signed rendering of the result is the
    bitwise OR, AND and XOR of the operands read in two's complement. *)
Theorem bitwise_signed a b sr :
  byte a -> byte b ->
  get_signed (fst (calculate OR a b sr)) (snd (calculate OR a b sr))
  = Z.lor (get_signed_1 a) (get_signed_1 b)
  /\ get_signed (fst (calculate AND a b sr)) (snd (calculate AND a b sr))
     = Z.land (get_signed_1 a) (get_signed_1 b)
  /\ get_signed (fst (calculate XOR a b sr)) (snd (calculate XOR a b sr))
     = Z.lxor (get_signed_1 a) (get_signed_1 b).
Proof.
  intros Ha Hb.
  pose proof (byte_lor a b Ha Hb) as Hor.
  pose proof (byte_land a b Ha Hb) as Hand.
  pose proof (byte_lxor a b Ha Hb) as Hxor.
  rewrite !get_signed_bitwise;
    rewrite ?accumulator_OR, ?accumulator_AND, ?accumulator_XOR by assumption;
    try assumption; try reflexivity.
  repeat split; apply Z.bits_inj'; intros j Hj;
    rewrite ?Z.lor_spec, ?Z.land_spec, ?Z.lxor_spec;
    rewrite !get_signed_1_testbit by assumption;
    destruct (Z.ltb_spec j 8);
    rewrite ?Z.lor_spec, ?Z.land_spec, ?Z.lxor_spec; reflexivity.
Qed.

Lemma bitwise_signed_witness :
  get_signed (fst (calculate OR 156 50 0)) (snd (calculate OR 156 50 0))
  = Z.lor (get_signed_1 156) (get_signed_1 50).
Proof. apply (bitwise_signed 156 50 0); range. Defined.

(** ** More on [calculate] *)

(** X12.  For every operation code the Negative flag (bit 3 of [sr]) is
    bit 7 of the returned byte: it is set exactly when that byte is 128 or
    more. *)
Theorem negative_flag_rule operation a b sr :
  Z.testbit (snd (calculate operation a b sr)) N
  = Z.testbit (fst (calculate operation a b sr)) 7
  /\ (Z.testbit (snd (calculate operation a b sr)) N = true
      <-> 128 <= fst (calculate operation a b sr)).
Proof.
  assert (Hn : Z.testbit (snd (calculate operation a b sr)) N
               = Z.testbit (fst (calculate operation a b sr)) 7)
    by (rewrite result_sign; calc; reflexivity).
  split; [exact Hn |]. rewrite Hn, testbit_7_byte.
  - apply Z.leb_le.
  - rewrite calculate_result. apply static_cast_range.
Qed.

Lemma accumulator_comm operation a b :
  operation <> SUB -> accumulator operation a b = accumulator operation b a.
Proof.
  intros Hop. unfold accumulator. apply Z.eqb_neq in Hop. rewrite Hop.
  now rewrite (Z.lor_comm a b), (Z.land_comm a b), (Z.lxor_comm a b),
    (Z.add_comm a b).
Qed.

Lemma overflow_comm operation a b :
  operation <> SUB -> overflow operation a b = overflow operation b a.
Proof.
  intros Hop. destruct (Z.eq_dec operation ADD) as [-> | Hadd].
  - rewrite !overflow_ADD, (accumulator_comm ADD b a) by discriminate.
    destruct (Z.testbit a 7), (Z.testbit b 7),
      (Z.testbit (accumulator ADD a b) 7); reflexivity.
  - unfold overflow. apply Z.eqb_neq in Hop, Hadd. now rewrite Hop, Hadd.
Qed.

(** X13.  Every operation but SUB is commutative, flags included: the
    operands can be exchanged without changing the returned byte or the
    status register. *)
Theorem calculate_commutative operation a b sr :
  operation <> SUB -> calculate operation a b sr = calculate operation b a sr.
Proof.
  intros Hop. rewrite !calculate_switch.
  now rewrite (accumulator_comm operation a b), (overflow_comm operation a b).
Qed.

Lemma calculate_commutative_witness :
  calculate ADD 100 50 0 = calculate ADD 50 100 0.
Proof. apply (calculate_commutative ADD 100 50 0). discriminate. Defined.

(** X14.  The Zero flag (bit 2 of [sr]) is set exactly when the returned
    byte is zero, except that it stays clear after an ADD whose sum is
    256: for all bytes [a] and [b] and every operation code it is set if
    and only if the returned byte is zero and the call is not an ADD with
    [a + b = 256]. *)
Theorem zero_flag_rule operation a b sr :
  byte a -> byte b ->
  Z.testbit (snd (calculate operation a b sr)) Z = true
  <-> fst (calculate operation a b sr) = 0
      /\ ~ (operation = ADD /\ a + b = 256).
Proof.
  intros Ha Hb. destruct (Z.eq_dec operation ADD) as [-> | Hop].
  - rewrite zero_flag_ADD by assumption.
    destruct (ADD_by_comparison a b Ha Hb) as (_ & Hres & _).
    rewrite calculate_result, Hres.
    cbv [in_range width] in *. change (2 ^ 8) with 256 in *.
    destruct (Z.leb_spec 256 (a + b)); lia.
  - rewrite zero_flag_result by assumption. tauto.
Qed.

Lemma zero_flag_rule_witness :
  Z.testbit (snd (calculate ADD 128 128 0)) Z = true
  <-> fst (calculate ADD 128 128 0) = 0 /\ ~ (ADD = ADD /\ 128 + 128 = 256).
Proof. apply (zero_flag_rule ADD 128 128 0); range. Defined.

(** ** Operation names *)

(** Outside the five codes both name functions take their last branch. *)
Lemma unrecognised_names op_code :
  ~ recognised op_code ->
  get_instruction_name op_code = "Unknown"%string
  /\ get_operator op_code = "Unknown"%string.
Proof.
  unfold recognised, get_instruction_name, get_operator. intros H.
  destruct (Z.eqb_spec op_code OR); [tauto |].
  destruct (Z.eqb_spec op_code AND); [tauto |].
  destruct (Z.eqb_spec op_code XOR); [tauto |].
  destruct (Z.eqb_spec op_code ADD); [tauto |].
  destruct (Z.eqb_spec op_code SUB); [tauto | split; reflexivity].
Qed.

(** X15.  [get_op_code] inverts [get_instruction_name] on the five
    operation codes; the name of any other code, NOP included, is
    "Unknown", which [get_op_code] takes to NOP. *)
Theorem get_op_code_of_name op_code :
  (recognised op_code -> get_op_code (get_instruction_name op_code) = op_code)
  /\ (~ recognised op_code -> get_op_code (get_instruction_name op_code) = NOP).
Proof.
  split.
  - intros [-> | [-> | [-> | [-> | ->]]]]; reflexivity.
  - intros H. destruct (unrecognised_names op_code H) as [-> _]. reflexivity.
Qed.

(** [get_op_code] returns NOP or one of the five operation codes. *)
Lemma name_of_op_code_cases instruction_name :
  get_op_code instruction_name = NOP \/ recognised (get_op_code instruction_name).
Proof.
  unfold get_op_code, recognised.
  destruct (instruction_name =? "OR")%string; [right; auto 7 |].
  destruct (instruction_name =? "AND")%string; [right; auto 7 |].
  destruct (instruction_name =? "XOR")%string; [right; auto 7 |].
  destruct (instruction_name =? "ADD")%string; [right; auto 7 |].
  destruct (instruction_name =? "SUB")%string; [right; auto 7 | now left].
Qed.

(** X16.  [get_instruction_name] inverts [get_op_code] on every string
    that [get_op_code] does not take to NOP, and [get_op_code] returns
    nothing but NOP and the five operation codes. *)
Theorem name_of_get_op_code instruction_name :
  (get_op_code instruction_name <> NOP ->
   get_instruction_name (get_op_code instruction_name) = instruction_name)
  /\ (get_op_code instruction_name = NOP
      \/ recognised (get_op_code instruction_name)).
Proof.
  split; [| apply name_of_op_code_cases]. unfold get_op_code.
  destruct (String.eqb_spec instruction_name "OR") as [-> | _]; [reflexivity |].
  destruct (String.eqb_spec instruction_name "AND") as [-> | _]; [reflexivity |].
  destruct (String.eqb_spec instruction_name "XOR") as [-> | _]; [reflexivity |].
  destruct (String.eqb_spec instruction_name "ADD") as [-> | _]; [reflexivity |].
  destruct (String.eqb_spec instruction_name "SUB") as [-> | _]; [reflexivity |].
  congruence.
Qed.

(** X17.  [get_operator] and [get_instruction_name] answer "Unknown" for
    the same operation codes: exactly those that are none of the five. *)
Theorem unknown_operation_names op_code :
  (get_operator op_code = "Unknown"%string <-> ~ recognised op_code)
  /\ (get_instruction_name op_code = "Unknown"%string <-> ~ recognised op_code).
Proof.
  split; (split; [| intros H; now destruct (unrecognised_names op_code H)]).
  - intros H [-> | [-> | [-> | [-> | ->]]]]; discriminate H.
  - intros H [-> | [-> | [-> | [-> | ->]]]]; discriminate H.
Qed.

(** ** The input loops *)

Local Open Scope string_scope.
Local Open Scope Z_scope.

Lemma append_assoc (s1 s2 s3 : string) :
  ((s1 ++ s2) ++ s3 = s1 ++ s2 ++ s3)%string.
Proof. induction s1 as [| c s1 IH]; cbn; [reflexivity | now rewrite IH]. Qed.

(** What [read_op_code] writes for a line it rejects: the end of line of
    [readline], then its message. *)
Lemma rejected_instruction fuel t l rest :
  cin t = l :: rest -> get_op_code l = NOP ->
  read_op_code (Datatypes.S fuel) t
  = read_op_code fuel
      {| cin := rest;
         cout := cout t ++ nl ++ "Invalid instruction, try again!" ++ nl ++ nl;
         cerr := cerr t |}.
Proof.
  intros Hcin Hl. cbn [read_op_code]. unfold readline, getline.
  rewrite Hcin, Hl. cbn [Z.eqb NOP]. unfold write_cout. cbn [cin cout cerr].
  now rewrite append_assoc.
Qed.

(** X18.  [read_op_code] returns the code of the first line that names an
    operation: it skips every line before it, answering each with an end of
    line and "Invalid instruction, try again!", and leaves the lines after
    it unread. *)
Theorem read_op_code_first_valid skipped : forall fuel t s rest,
  cin t = (skipped ++ s :: rest)%list ->
  Forall (fun l => get_op_code l = NOP) skipped ->
  get_op_code s <> NOP ->
  (List.length skipped < fuel)%nat ->
  read_op_code fuel t
  = returned (get_op_code s)
      {| cin := rest;
         cout := cout t
                 ++ repeated (List.length skipped)
                      (nl ++ "Invalid instruction, try again!" ++ nl ++ nl)
                 ++ nl;
         cerr := cerr t |}.
Proof.
  induction skipped as [| l skipped IH]; intros fuel t s rest Hcin Hall Hs Hfuel.
  - destruct fuel as [| fuel]; [cbn in Hfuel; lia |].
    cbn [read_op_code]. unfold readline, getline. rewrite Hcin. cbn [app].
    apply Z.eqb_neq in Hs. rewrite Hs. reflexivity.
  - destruct fuel as [| fuel]; [cbn in Hfuel; lia |].
    inversion Hall as [| ? ? Hl Hrest]; subst.
    rewrite (rejected_instruction fuel t l (skipped ++ s :: rest)%list)
      by assumption.
    rewrite (IH fuel _ s rest) by (cbn in *; (reflexivity || assumption || lia)).
    cbn [cin cout cerr List.length repeated].
    now rewrite !append_assoc.
Qed.

Lemma read_op_code_first_valid_witness :
  read_op_code 3 {| cin := ["add"; ""; "SUB"; "7"]; cout := ""; cerr := "" |}
  = returned SUB
      {| cin := ["7"];
         cout := repeated 2 (nl ++ "Invalid instruction, try again!" ++ nl ++ nl)
                 ++ nl;
         cerr := "" |}.
Proof.
  apply (read_op_code_first_valid ["add"; ""]%string 3
           {| cin := ["add"; ""; "SUB"; "7"]; cout := ""; cerr := "" |}
           "SUB" ["7"]%string).
  - reflexivity.
  - repeat constructor.
  - discriminate.
  - cbn. lia.
Defined.

(** What [read_op_code] can end with. *)
Lemma read_op_code_outcome fuel : forall t,
  match read_op_code fuel t with
  | returned op_code _ => recognised op_code
  | uncaught _ => False
  | out_of_fuel => True
  end.
Proof.
  induction fuel as [| fuel IH]; intros t; [exact I |].
  cbn [read_op_code]. destruct (readline t) as [s t'].
  destruct (Z.eqb_spec (get_op_code s) NOP) as [_ | Hne]; [apply IH |].
  destruct (name_of_op_code_cases s) as [H | H]; [contradiction | exact H].
Qed.

(** X19.  [read_op_code] returns nothing but one of the five operation
    codes, never NOP, and no exception leaves it. *)
Theorem read_op_code_recognised fuel t :
  match read_op_code fuel t with
  | returned op_code _ => recognised op_code
  | uncaught _ => False
  | out_of_fuel => True
  end.
Proof. apply read_op_code_outcome. Qed.

(** X20.  While no line names an operation, and after the input has ended,
    [read_op_code] does not return, whatever the number of iterations. *)
Theorem read_op_code_no_valid_line fuel : forall t,
  Forall (fun l => get_op_code l = NOP) (cin t) ->
  read_op_code fuel t = out_of_fuel.
Proof.
  induction fuel as [| fuel IH]; intros t Hall; [reflexivity |].
  destruct (cin t) as [| l rest] eqn:Hcin.
  - cbn [read_op_code]. unfold readline, getline. rewrite Hcin.
    cbn [get_op_code String.eqb Z.eqb NOP]. apply IH.
    cbn [write_cout cin]. rewrite Hcin. constructor.
  - inversion Hall as [| ? ? Hl Hrest]; subst.
    rewrite (rejected_instruction fuel t l rest) by assumption.
    apply IH. assumption.
Qed.

Lemma read_op_code_no_valid_line_witness :
  read_op_code 50 {| cin := ["sub"; "4"]; cout := ""; cerr := "" |} = out_of_fuel.
Proof.
  apply (read_op_code_no_valid_line 50
           {| cin := ["sub"; "4"]; cout := ""; cerr := "" |}).
  repeat constructor.
Defined.

Lemma append_nil_r (s : string) : s ++ "" = s.
Proof. induction s as [| c s IH]; cbn; [reflexivity | now rewrite IH]. Qed.

Section ReadByte.

Variable stoi : string -> stoi_result.

(** What [read_byte] writes for a line [std::stoi] cannot convert: the end
    of line of [readline] on [std::cout], its message on [std::cerr]. *)
Lemma rejected_number fuel t l rest :
  cin t = l :: rest -> stoi l = invalid_argument ->
  read_byte stoi (Datatypes.S fuel) t
  = read_byte stoi fuel
      {| cin := rest;
         cout := cout t ++ nl;
         cerr := cerr t ++ "Invalid input, try again!" ++ nl ++ nl |}.
Proof.
  intros Hcin Hl. cbn [read_byte]. unfold readline, getline.
  rewrite Hcin, Hl. reflexivity.
Qed.

(** The lines that [read_byte] rejects before it reaches one that
    [std::stoi] converts or refuses as out of range. *)
Lemma read_byte_skip skipped : forall fuel t rest,
  cin t = (skipped ++ rest)%list ->
  Forall (fun l => stoi l = invalid_argument) skipped ->
  read_byte stoi (List.length skipped + fuel) t
  = read_byte stoi fuel
      {| cin := rest;
         cout := cout t ++ repeated (List.length skipped) nl;
         cerr := cerr t
                 ++ repeated (List.length skipped)
                      ("Invalid input, try again!" ++ nl ++ nl) |}.
Proof.
  induction skipped as [| l skipped IH]; intros fuel t rest Hcin Hall.
  - cbn [List.length repeated Nat.add app] in *. rewrite !append_nil_r.
    destruct t; cbn in *; now subst.
  - inversion Hall as [| ? ? Hl Hrest]; subst.
    cbn [List.length Nat.add].
    rewrite (rejected_number _ t l (skipped ++ rest)%list) by assumption.
    rewrite (IH fuel _ rest) by (reflexivity || assumption).
    cbn [cin cout cerr repeated]. now rewrite !append_assoc.
Qed.

End ReadByte.

(** X21.  [read_byte] returns the first number that [std::stoi] converts,
    reduced modulo 256: a number outside 0..255 is not rejected but wrapped
    into a byte.  Every line before it that [std::stoi] cannot convert is
    answered with "Invalid input, try again!" on [std::cerr]. *)
Theorem read_byte_first_converted stoi skipped fuel t s rest v :
  cin t = (skipped ++ s :: rest)%list ->
  Forall (fun l => stoi l = invalid_argument) skipped ->
  stoi s = stoi_value v ->
  (List.length skipped < fuel)%nat ->
  read_byte stoi fuel t
  = returned (v mod 256)
      {| cin := rest;
         cout := cout t ++ repeated (List.length skipped) nl ++ nl;
         cerr := cerr t
                 ++ repeated (List.length skipped)
                      ("Invalid input, try again!" ++ nl ++ nl) |}
  /\ byte (v mod 256).
Proof.
  intros Hcin Hall Hs Hfuel. split; [| apply (static_cast_range uint8_t v)].
  replace fuel
    with (List.length skipped + Datatypes.S (fuel - List.length skipped - 1))%nat
    by lia.
  rewrite (read_byte_skip stoi skipped _ t (s :: rest)) by assumption.
  cbn [read_byte]. unfold readline, getline. cbn [cin cout cerr]. rewrite Hs.
  unfold write_cout. cbn [cin cout cerr]. now rewrite append_assoc.
Qed.

Lemma read_byte_first_converted_witness :
  read_byte (fun s => if (s =? "300")%string then stoi_value 300
                      else invalid_argument)
    2 {| cin := ["x"; "300"; "1"]; cout := ""; cerr := "" |}
  = returned (300 mod 256)
      {| cin := ["1"];
         cout := repeated 1 nl ++ nl;
         cerr := repeated 1 ("Invalid input, try again!" ++ nl ++ nl) |}
  /\ byte (300 mod 256).
Proof.
  apply (read_byte_first_converted _ ["x"] 2
           {| cin := ["x"; "300"; "1"]; cout := ""; cerr := "" |} "300" ["1"] 300).
  - reflexivity.
  - repeat constructor.
  - reflexivity.
  - cbn. lia.
Defined.

(** X22.  [read_byte] catches [std::invalid_argument] only: when the first
    line that [std::stoi] does not reject as unconvertible makes it throw
    [std::out_of_range], the exception leaves [read_byte] and no retry is
    offered. *)
Theorem read_byte_out_of_range stoi skipped fuel t s rest :
  cin t = (skipped ++ s :: rest)%list ->
  Forall (fun l => stoi l = invalid_argument) skipped ->
  stoi s = out_of_range ->
  (List.length skipped < fuel)%nat ->
  read_byte stoi fuel t
  = uncaught
      {| cin := rest;
         cout := cout t ++ repeated (List.length skipped) nl ++ nl;
         cerr := cerr t
                 ++ repeated (List.length skipped)
                      ("Invalid input, try again!" ++ nl ++ nl) |}.
Proof.
  intros Hcin Hall Hs Hfuel.
  replace fuel
    with (List.length skipped + Datatypes.S (fuel - List.length skipped - 1))%nat
    by lia.
  rewrite (read_byte_skip stoi skipped _ t (s :: rest)) by assumption.
  cbn [read_byte]. unfold readline, getline. cbn [cin cout cerr]. rewrite Hs.
  unfold write_cout. cbn [cin cout cerr]. now rewrite append_assoc.
Qed.

Lemma read_byte_out_of_range_witness :
  read_byte (fun s => if (s =? "99999999999")%string then out_of_range
                      else invalid_argument)
    1 {| cin := ["99999999999"; "1"]; cout := ""; cerr := "" |}
  = uncaught {| cin := ["1"]; cout := repeated 0 nl ++ nl;
                cerr := repeated 0 ("Invalid input, try again!" ++ nl ++ nl) |}.
Proof.
  apply (read_byte_out_of_range _ [] 1
           {| cin := ["99999999999"; "1"]; cout := ""; cerr := "" |}
           "99999999999" ["1"]).
  - reflexivity.
  - constructor.
  - reflexivity.
  - cbn. lia.
Defined.

(** Whatever [read_byte] returns is a byte. *)
Lemma read_byte_byte stoi fuel : forall t,
  match read_byte stoi fuel t with
  | returned x _ => byte x
  | _ => True
  end.
Proof.
  induction fuel as [| fuel IH]; intros t; [exact I |].
  cbn [read_byte]. destruct (readline t) as [s t'].
  destruct (stoi s); [apply static_cast_range | apply IH | exact I].
Qed.

(** ** [alu.hpp]: [print] and [calculate_by_input] *)

(** X23.  The status register that [print] shows with five binary digits,
    computed from [sr = 0x00], has nothing above bit 4: the digits after
    "SNZVC = " are the whole register. *)
Theorem print_status_fits operation a b :
  0 <= snd (calculate operation a b 0) < 32.
Proof.
  pose proof (calculate_status_byte operation a b 0) as Hbyte.
  assert (Hhigh : forall j, 5 <= j ->
            Z.testbit (snd (calculate operation a b 0)) j = false).
  { intros j Hj. rewrite calculate_status by lia.
    destruct (Z.eqb_spec j C), (Z.eqb_spec j V), (Z.eqb_spec j Z),
      (Z.eqb_spec j N), (Z.eqb_spec j S); unfold C, V, Z, N, S in *; try lia.
    rewrite Z.bits_0. apply andb_false_r. }
  split; [apply Hbyte |].
  replace (snd (calculate operation a b 0))
    with (snd (calculate operation a b 0) mod 2 ^ 5).
  - apply Z.mod_pos_bound. reflexivity.
  - apply Z.bits_inj'. intros j Hj. rewrite Z.testbit_mod_pow2 by lia.
    destruct (Z.ltb_spec j 5); [reflexivity | symmetry; now apply Hhigh].
Qed.

Section Streams.

Variable show_int : integer -> string.
Variable show_bits : nat -> integer -> string.
Variable stoi : string -> stoi_result.

(** X24.  Whenever [calculate_by_input] gets as far as printing, what it
    prints is the calculation of one of the five operations on two bytes:
    [calculate] is never reached with NOP or another code without a
    [case]. *)
Theorem calculate_by_input_prints_valid fuel t t' :
  calculate_by_input show_int show_bits stoi fuel t = returned tt t' ->
  exists op_code op1 op2 t0,
    recognised op_code /\ byte op1 /\ byte op2
    /\ t' = print show_int show_bits op_code op1 op2 t0.
Proof.
  unfold calculate_by_input.
  match goal with
  | |- context [read_op_code fuel ?t1] =>
      pose proof (read_op_code_outcome fuel t1) as Hop;
      destruct (read_op_code fuel t1) as [op_code t2 | |]; try discriminate
  end.
  match goal with
  | |- context [read_byte stoi fuel ?t3] =>
      pose proof (read_byte_byte stoi fuel t3) as H1;
      destruct (read_byte stoi fuel t3) as [op1 t4 | |]; try discriminate
  end.
  match goal with
  | |- context [read_byte stoi fuel ?t5] =>
      pose proof (read_byte_byte stoi fuel t5) as H2;
      destruct (read_byte stoi fuel t5) as [op2 t6 | |]; try discriminate
  end.
  intros [= <-]. exists op_code, op1, op2. eauto.
Qed.

(** X25.  Given the name of an operation and two lines that [std::stoi]
    converts, [calculate_by_input] reads exactly these three lines and
    prints the calculation of that operation on the two numbers modulo
    256, after its three prompts. *)
Theorem calculate_by_input_three_lines fuel t name x y rest vx vy :
  cin t = name :: x :: y :: rest ->
  get_op_code name <> NOP ->
  stoi x = stoi_value vx -> stoi y = stoi_value vy ->
  (0 < fuel)%nat ->
  calculate_by_input show_int show_bits stoi fuel t
  = returned tt
      (print show_int show_bits (get_op_code name) (vx mod 256) (vy mod 256)
         {| cin := rest;
            cout := cout t
                    ++ "Enter an operation to perform (OR, AND, XOR, ADD och SUB):"
                    ++ nl ++ nl
                    ++ "Enter the first operand (0 - 255):" ++ nl ++ nl
                    ++ "Enter the second operand (0 - 255):" ++ nl ++ nl;
            cerr := cerr t |}).
Proof.
  intros Hcin Hname Hx Hy Hfuel.
  destruct fuel as [| fuel]; [lia |]. apply Z.eqb_neq in Hname.
  unfold calculate_by_input. cbn [read_op_code read_byte].
  unfold readline, getline, write_cout. cbn [cin cout cerr].
  rewrite Hcin. cbn [cin cout cerr]. rewrite Hname. cbn [cin cout cerr].
  rewrite Hx. cbn [cin cout cerr]. rewrite Hy.
  rewrite !append_assoc. reflexivity.
Qed.

End Streams.

Lemma calculate_by_input_prints_valid_witness :
  exists op_code op1 op2 t0,
    recognised op_code /\ byte op1 /\ byte op2
    /\ print (fun _ => "") (fun _ _ => "") ADD 44 1
         {| cin := [];
            cout := "Enter an operation to perform (OR, AND, XOR, ADD och SUB):"
                    ++ nl ++ nl
                    ++ "Enter the first operand (0 - 255):" ++ nl ++ nl
                    ++ "Enter the second operand (0 - 255):" ++ nl ++ nl;
            cerr := "" |}
       = print (fun _ => "") (fun _ _ => "") op_code op1 op2 t0.
Proof.
  exact (calculate_by_input_prints_valid (fun _ => "") (fun _ _ => "")
           (fun s => if (s =? "300")%string then stoi_value 300
                     else if (s =? "1")%string then stoi_value 1
                     else invalid_argument)
           1 {| cin := ["ADD"; "300"; "1"]; cout := ""; cerr := "" |} _ eq_refl).
Defined.

Lemma calculate_by_input_three_lines_witness :
  calculate_by_input (fun _ => "") (fun _ _ => "")
    (fun s => if (s =? "-100")%string then stoi_value (-100)
              else if (s =? "50")%string then stoi_value 50
              else invalid_argument)
    1 {| cin := ["SUB"; "-100"; "50"]; cout := ""; cerr := "" |}
  = returned tt
      (print (fun _ => "") (fun _ _ => "") (get_op_code "SUB")
         (-100 mod 256) (50 mod 256)
         {| cin := [];
            cout := ""
                    ++ "Enter an operation to perform (OR, AND, XOR, ADD och SUB):"
                    ++ nl ++ nl
                    ++ "Enter the first operand (0 - 255):" ++ nl ++ nl
                    ++ "Enter the second operand (0 - 255):" ++ nl ++ nl;
            cerr := "" |}).
Proof.
  apply (calculate_by_input_three_lines (fun _ => "") (fun _ _ => "") _ 1
           {| cin := ["SUB"; "-100"; "50"]; cout := ""; cerr := "" |}
           "SUB" "-100" "50" [] (-100) 50).
  - reflexivity.
  - discriminate.
  - reflexivity.
  - reflexivity.
  - lia.
Defined.
